(** * tiny-cuda-nn: the Network interface (include/tiny-cuda-nn/network.h)

    The header declares
    - the free function [cutlass_free_workspace],
    - the enumeration [WeightUsage],
    - the abstract class template [Network<T>] with its single pure virtual
      method [inference_mixed_precision], and
    - the factory template [create_network].

    The development has two layers.  Module [Header] transcribes the
    declarations themselves (types of parameters, default arguments, base
    classes, data members) together with the argument-binding rule of a call,
    so that statements about static types and defaults can be evaluated.
    The second layer gives the behaviour of the three operations as state
    transformers over an explicit device state. *)

From Stdlib Require Import ZArith Lia.
From stdpp Require Import gmap strings list functions.

#[local] Set Warnings "-clear-no-such-hyp".
Local Open Scope string_scope.

(** ** Enumerations *)

(** [enum class WeightUsage { Inference, Forward, Backward, };]

    A scoped enumeration declared without an enum-base has the fixed
    underlying type [int], and every value of the underlying type is a value
    of the enumeration: the enumerators name three of them, and
    [static_cast<WeightUsage>(z)] yields the others.  A value of type
    [WeightUsage] is therefore given by its underlying [int] (32 bits on the
    platforms CUDA supports). *)
Definition int_min : Z := -2147483648.
Definition int_max : Z := 2147483647.

Definition is_int (z : Z) : bool := ((int_min <=? z) && (z <=? int_max))%Z.

Record WeightUsage : Type := Build_WeightUsage {
  WeightUsage_underlying : Z;
  WeightUsage_is_int : Is_true (is_int WeightUsage_underlying);
}.

(** [static_cast<WeightUsage>(z)] for an [int] [z]; there is no [int] outside
    the range, hence no result there. *)
Definition static_cast_WeightUsage (z : Z) : option WeightUsage :=
  match decide (Is_true (is_int z)) with
  | left H => Some (Build_WeightUsage z H)
  | right _ => None
  end.

(** The enumerator list as written: three names, none with an initialiser. *)
Definition WeightUsage_declaration : list (string * option Z) :=
  [("Inference", None); ("Forward", None); ("Backward", None)].

(** The value the language gives each enumerator: its initialiser if it has
    one, else one more than its predecessor, starting from [next]. *)
Fixpoint enumerator_values (next : Z) (decl : list (string * option Z))
  : list (string * Z) :=
  match decl with
  | [] => []
  | (name, init) :: decl' =>
      let v := default next init in
      (name, v) :: enumerator_values (v + 1) decl'
  end.

(** [WeightUsage::Inference], [WeightUsage::Forward] and
    [WeightUsage::Backward]. *)
Definition Inference : WeightUsage := Build_WeightUsage 0 I.
Definition Forward : WeightUsage := Build_WeightUsage 1 I.
Definition Backward : WeightUsage := Build_WeightUsage 2 I.

(** Modelled from the spec: [MatrixLayout] is declared in common.h, which is
    not part of the sources at hand; the spec gives it as the closed set
    {RowMajor, ColumnMajor}. *)
Inductive MatrixLayout : Type :=
| RowMajor
| ColumnMajor.

#[global] Instance MatrixLayout_eq_dec : EqDecision MatrixLayout.
Proof. solve_decision. Defined.

(** The enumerators in declaration order. *)
Definition WeightUsage_enumerators : list WeightUsage :=
  [Inference; Forward; Backward].

(** ** The declarations of network.h *)

Module Header.

(** The C++ types that occur in the header.  [Named] covers the types the
    header only mentions by name ([cudaStream_t], [json], and whatever
    element type a template is instantiated at). *)
Inductive cpp_type : Type :=
| Void
| Named (name : string)
| MatrixLayoutT
| WeightUsageT
| GPUMatrixT (elem : cpp_type) (layout : MatrixLayout)
| DifferentiableObjectT (T COMPUTE_T : cpp_type)
| NetworkT (T : cpp_type)
| Ptr (t : cpp_type)
| LRef (t : cpp_type)
| ConstLRef (t : cpp_type).

#[global] Instance cpp_type_eq_dec : EqDecision cpp_type.
Proof. solve_decision. Defined.

(** Does type [t] occur in [u]?  (Used to look for a member that could
    hold a value of a given type.) *)
Fixpoint mentions (t u : cpp_type) : bool :=
  bool_decide (t = u) ||
  match u with
  | GPUMatrixT e _ => mentions t e
  | DifferentiableObjectT a b => mentions t a || mentions t b
  | NetworkT a => mentions t a
  | Ptr a | LRef a | ConstLRef a => mentions t a
  | _ => false
  end.

(** A default argument; the header has only one, of type [MatrixLayout]. *)
Inductive default_arg : Type :=
| DefaultLayout (l : MatrixLayout).

Record param : Type := Param {
  p_name : string;
  p_type : cpp_type;
  p_default : option default_arg;
}.

Record function_decl : Type := Function_decl {
  f_name : string;
  f_virtual : bool;
  f_pure : bool;
  f_return : cpp_type;
  f_params : list param;
}.

Record class_decl : Type := Class_decl {
  c_name : string;
  c_bases : list cpp_type;
  c_fields : list (string * cpp_type);
  c_methods : list function_decl;
}.

(** [void cutlass_free_workspace(cudaStream_t stream);] *)
Definition cutlass_free_workspace : function_decl :=
  Function_decl "cutlass_free_workspace" false false Void
    [Param "stream" (Named "cudaStream_t") None].

(** [virtual void inference_mixed_precision(cudaStream_t stream,
      const GPUMatrix<T, MatrixLayout::ColumnMajor>& input,
      GPUMatrix<T, MatrixLayout::ColumnMajor>& output,
      MatrixLayout output_layout = MatrixLayout::ColumnMajor) = 0;] *)
Definition inference_mixed_precision (T : cpp_type) : function_decl :=
  Function_decl "inference_mixed_precision" true true Void
    [Param "stream" (Named "cudaStream_t") None;
     Param "input" (ConstLRef (GPUMatrixT T ColumnMajor)) None;
     Param "output" (LRef (GPUMatrixT T ColumnMajor)) None;
     Param "output_layout" MatrixLayoutT (Some (DefaultLayout ColumnMajor))].

(** [virtual ~Network() { }] *)
Definition Network_destructor : function_decl :=
  Function_decl "~Network" true false Void [].

(** [template <typename T> class Network : public DifferentiableObject<T, T>]:
    one base class, no data member, the destructor and one method. *)
Definition Network (T : cpp_type) : class_decl :=
  Class_decl "Network"
    [DifferentiableObjectT T T]
    []
    [Network_destructor; inference_mixed_precision T].

(** [template <typename T> Network<T>* create_network(json network);] *)
Definition create_network (T : cpp_type) : function_decl :=
  Function_decl "create_network" false false (Ptr (NetworkT T))
    [Param "network" (Named "json") None].

(** Modelled from the spec: [DifferentiableObject] is declared in object.h,
    which is not part of the sources at hand.  The spec describes it as the
    capability that supplies parameter storage and gradient accumulation;
    its first template argument is the element type of the externally
    visible parameters and gradients, its second the compute type. *)
Definition params_type (base : cpp_type) : option cpp_type :=
  match base with
  | DifferentiableObjectT T _ => Some T
  | _ => None
  end.

Definition compute_type (base : cpp_type) : option cpp_type :=
  match base with
  | DifferentiableObjectT _ C => Some C
  | _ => None
  end.

(** *** Binding the arguments of a call

    An argument expression has a static type, may be const-qualified, and,
    when it is a [MatrixLayout], a value. *)
Record argument : Type := Argument {
  a_type : cpp_type;
  a_const : bool;
  a_layout : option MatrixLayout;
}.

(** Reference binding for an argument whose type is the parameter's own: a
    [const T&] parameter takes any [T]; a [T&] parameter takes a non-const
    [T]; a by-value parameter takes a [T].  Implicit conversions and value
    categories are outside this rule: it decides calls whose arguments are
    named objects of the declared types. *)
Definition accepts (p : cpp_type) (a : argument) : bool :=
  match p with
  | ConstLRef t => bool_decide (a_type a = t)
  | LRef t => bool_decide (a_type a = t) && negb (a_const a)
  | t => bool_decide (a_type a = t)
  end.

Definition of_default (d : default_arg) : argument :=
  match d with
  | DefaultLayout l => Argument MatrixLayoutT true (Some l)
  end.

(** Arguments are matched to parameters left to right; a parameter without
    an argument takes its default; a call with a missing argument and no
    default, with an argument of the wrong type, or with too many
    arguments, is ill-formed. *)
Fixpoint bind_call (ps : list param) (args : list argument)
  : option (list (string * argument)) :=
  match ps, args with
  | [], [] => Some []
  | [], _ :: _ => None
  | p :: ps', [] =>
      match p_default p with
      | Some d =>
          rest ← bind_call ps' [];
          Some ((p_name p, of_default d) :: rest)
      | None => None
      end
  | p :: ps', a :: args' =>
      if accepts (p_type p) a then
        rest ← bind_call ps' args';
        Some ((p_name p, a) :: rest)
      else None
  end.

(** The argument bound to the parameter called [name]. *)
Fixpoint bound (name : string) (b : list (string * argument))
  : option argument :=
  match b with
  | [] => None
  | (x, a) :: b' => if decide (x = name) then Some a else bound name b'
  end.

(** Argument expressions of the types the method is called with. *)
Definition stream_arg : argument := Argument (Named "cudaStream_t") false None.
Definition matrix_arg (T : cpp_type) (l : MatrixLayout) (const : bool)
  : argument :=
  Argument (GPUMatrixT T l) const None.
Definition layout_arg (l : MatrixLayout) : argument :=
  Argument MatrixLayoutT false (Some l).

End Header.

(** ** Results and errors *)

(** The error taxonomy of the design. *)
Inductive Error : Type :=
| ConfigurationError (key reason : string)
| DimensionMismatchError
| AcceleratorFailure.

Inductive Result (A : Type) : Type :=
| Ok (a : A)
| Failed (e : Error).
Arguments Ok {A} a.
Arguments Failed {A} e.

(** A computation over a state [S] that may throw: the state reached so far
    survives a failure, as the effects of a C++ function survive an
    exception it throws. *)
Definition Run (S A : Type) : Type := S → Result A * S.

Definition ret {S A} (a : A) : Run S A := λ s, (Ok a, s).
Definition throw {S A} (e : Error) : Run S A := λ s, (Failed e, s).
Definition bind {S A B} (c : Run S A) (k : A → Run S B) : Run S B :=
  λ s, match c s with
       | (Ok a, s') => k a s'
       | (Failed e, s') => (Failed e, s')
       end.
Definition get {S} : Run S S := λ s, (Ok s, s).
Definition modify {S} (f : S → S) : Run S unit := λ s, (Ok tt, f s).

Notation "'let*' x ':=' c 'in' k" := (bind c (λ x, k))
  (at level 10, x name, c at level 100, k at level 200, only parsing).

Fixpoint for_each {S A} (f : A → Run S unit) (l : list A) : Run S unit :=
  match l with
  | [] => ret tt
  | x :: l' => let* _ := f x in for_each f l'
  end.

(** ** Device state *)

(** Modelled from the spec: an execution stream handle is an opaque
    identifier ([cudaStream_t] comes from the CUDA runtime). *)
Abbreviation cudaStream_t := nat (only parsing).

(** Modelled from the spec: [GPUMatrix] is declared outside the sources at
    hand.  The spec describes it as a view of an externally owned 2-D buffer:
    a device address and the two dimensions; the layout is part of the static
    type, as in [GPUMatrix<T, MatrixLayout::ColumnMajor>]. *)
Record GPUMatrix (T : Type) (layout : MatrixLayout) : Type := {
  data : nat;
  m : nat;
  n : nat;
}.
Arguments data {T layout} _.
Arguments m {T layout} _.
Arguments n {T layout} _.

(** Modelled from the spec: how element (i, j) of a [rows] x [cols] buffer
    maps to linear memory. *)
Definition element_index (layout : MatrixLayout) (rows cols i j : nat) : nat :=
  match layout with
  | ColumnMajor => j * rows + i
  | RowMajor => i * cols + j
  end.

(** Modelled from the spec: the accelerator state the three operations act
    on.  [memory] holds the externally owned numeric buffers; [workspaces]
    is the process-wide pool attributing scratch allocations to streams;
    [live] are the allocations of the device allocator that have not been
    freed; [next_alloc] is the allocator's next handle. *)
Record Device (T : Type) : Type := {
  memory : nat → T;
  workspaces : gmap nat (list nat);
  live : gset nat;
  next_alloc : nat;
}.
Arguments memory {T} _.
Arguments workspaces {T} _.
Arguments live {T} _.
Arguments next_alloc {T} _.

(** Modelled from the spec: [DifferentiableObject] (object.h) owns the
    parameter and gradient storage of an instance. *)
Record DifferentiableObject (T COMPUTE_T : Type) : Type := {
  storage : nat;
  params : list T;
  gradients : list T;
}.
Arguments storage {T COMPUTE_T} _.
Arguments params {T COMPUTE_T} _.
Arguments gradients {T COMPUTE_T} _.

(** [class Network : public DifferentiableObject<T, T>].  The class adds no
    data member; a concrete architecture supplies the declared widths and the
    function it evaluates on one input column (row [i] of the result for
    parameters [ps] and column [x] is [evaluate ps x i]). *)
Record Network (T : Type) : Type := {
  base : DifferentiableObject T T;
  input_width : nat;
  output_width : nat;
  evaluate : list T → list T → nat → T;
}.
Arguments base {T} _.
Arguments input_width {T} _.
Arguments output_width {T} _.
Arguments evaluate {T} _ _ _ _.

(** ** Behaviour of the three operations *)

Section Behaviour.

Context {T : Type}.

Implicit Types (d : Device T) (net : Network T).

(** *** The device allocator and the workspace pool *)

Definition set_memory (f : (nat → T) → nat → T) d : Device T :=
  {| memory := f (memory d); workspaces := workspaces d;
     live := live d; next_alloc := next_alloc d |}.

Definition set_workspaces (f : gmap nat (list nat) → gmap nat (list nat)) d
  : Device T :=
  {| memory := memory d; workspaces := f (workspaces d);
     live := live d; next_alloc := next_alloc d |}.

(** A fresh allocation. *)
Definition allocate : Run (Device T) nat :=
  λ d, (Ok (next_alloc d),
        {| memory := memory d; workspaces := workspaces d;
           live := {[next_alloc d]} ∪ live d;
           next_alloc := S (next_alloc d) |}).

(** Freeing an allocation that is not live is a fatal accelerator error. *)
Definition deallocate (a : nat) : Run (Device T) unit :=
  λ d, if decide (a ∈ live d)
       then (Ok tt,
             {| memory := memory d; workspaces := workspaces d;
                live := live d ∖ {[a]}; next_alloc := next_alloc d |})
       else (Failed AcceleratorFailure, d).

(** A compute operation on [stream] takes a scratch allocation, which stays
    attributed to the stream until the stream's workspace is released. *)
Definition acquire_workspace (stream : cudaStream_t) : Run (Device T) nat :=
  let* a := allocate in
  let* _ := modify (set_workspaces
                 (λ w, <[stream := a :: default [] (w !! stream)]> w)) in
  ret a.

(** Modelled from the spec: [cutlass_free_workspace] is only declared in
    network.h.  It frees every scratch allocation attributed to [stream]
    and leaves none attributed to it; a stream without scratch is left
    alone. *)
Definition cutlass_free_workspace (stream : cudaStream_t)
  : Run (Device T) unit :=
  let* d := get in
  match workspaces d !! stream with
  | None => ret tt
  | Some scratch =>
      let* _ := for_each deallocate scratch in
      modify (set_workspaces (delete stream))
  end.

(** *** Mixed-precision inference *)

(** Column [j] of a column-major view. *)
Definition read_column (mem : nat → T) (x : GPUMatrix T ColumnMajor) (j : nat)
  : list T :=
  (λ i, mem (data x + element_index ColumnMajor (m x) (n x) i j))
    <$> seq 0 (m x).

(** The stores one inference call performs: for every batch column of the
    input, every row of the result, at the place the requested layout
    gives it in the output buffer. *)
Definition inference_stores net (input output : GPUMatrix T ColumnMajor)
    (output_layout : MatrixLayout) (mem : nat → T) : list (nat * T) :=
  j ← seq 0 (n input);
  i ← seq 0 (m output);
  [(data output + element_index output_layout (m output) (n output) i j,
    evaluate net (params (base net)) (read_column mem input j) i)].

Definition store (mem : nat → T) (w : nat * T) : nat → T :=
  <[w.1 := w.2]> mem.

Definition dimensions_match net (input output : GPUMatrix T ColumnMajor)
  : Prop :=
  m input = input_width net ∧ m output = output_width net ∧
  n input = n output.

#[global] Instance dimensions_match_dec net input output :
  Decision (dimensions_match net input output).
Proof. unfold dimensions_match. apply _. Defined.

(** Modelled from the spec: [inference_mixed_precision] is pure virtual in
    network.h; its overriders live in the concrete architectures.  The
    call validates the declared dimensions, takes scratch on the stream,
    evaluates the network on every batch column of [input] and writes the
    results into [output] in the requested layout.  It returns the
    instance as the call leaves it. *)
Definition inference_mixed_precision net (stream : cudaStream_t)
    (input output : GPUMatrix T ColumnMajor) (output_layout : MatrixLayout)
  : Run (Device T) (Network T) :=
  if decide (dimensions_match net input output) then
    let* d := get in
    let* _ := acquire_workspace stream in
    let* _ := modify (set_memory (λ mem,
           foldl store mem (inference_stores net input output output_layout
                              (memory d)))) in
    ret net
  else throw DimensionMismatchError.

(** The addresses of a view's buffer. *)
Definition in_buffer {layout} (x : GPUMatrix T layout) (a : nat) : Prop :=
  data x ≤ a < data x + m x * n x.

End Behaviour.

(** ** The factory *)

(** Modelled from the spec: a configuration document is a nested mapping of
    string keys to strings, numbers, booleans, arrays or further mappings
    ([json] comes from a third-party library). *)
#[local] Unset Elimination Schemes.
Inductive json : Type :=
| Jnull
| Jbool (b : bool)
| Jnumber (z : Z)
| Jstring (s : string)
| Jarray (items : list json)
| Jobject (fields : list (string * json)).
#[local] Set Elimination Schemes.

Fixpoint assoc {A} (key : string) (l : list (string * A)) : option A :=
  match l with
  | [] => None
  | (k, v) :: l' => if decide (k = key) then Some v else assoc key l'
  end.

Definition json_get (key : string) (doc : json) : option json :=
  match doc with
  | Jobject fields => assoc key fields
  | _ => None
  end.

Definition json_lacks (doc : json) (key : string) : bool :=
  match json_get key doc with
  | None => true
  | Some _ => false
  end.

(** Modelled from the spec: what the factory knows of one architecture: the
    hyperparameters it requires, the check of their combination (the
    offending key and the reason when it fails), and its constructor, which
    is handed the parameter storage. *)
Record Architecture (T : Type) : Type := {
  required : list string;
  validate : json → option (string * string);
  build : json → nat → Network T;
}.
Arguments required {T} _.
Arguments validate {T} _ _.
Arguments build {T} _ _ _.

Section Factory.

Context {T : Type}.
Variable registry : list (string * Architecture T).

Definition architecture_tag (network : json) : option string :=
  match json_get "otype" network with
  | Some (Jstring tag) => Some tag
  | _ => None
  end.

Definition find_architecture (network : json) : option (Architecture T) :=
  tag ← architecture_tag network; assoc tag registry.

(** Modelled from the spec: [create_network] is only declared in
    network.h.  The factory looks the architecture tag up, checks the
    required hyperparameters and their combination, and only then lets the
    selected constructor allocate. *)
Definition create_network (network : json) : Run (Device T) (Network T) :=
  match find_architecture network with
  | None => throw (ConfigurationError "otype" "unrecognized architecture")
  | Some arch =>
      match find (json_lacks network) (required arch) with
      | Some key =>
          throw (ConfigurationError key "missing required hyperparameter")
      | None =>
          match validate arch network with
          | Some (key, reason) => throw (ConfigurationError key reason)
          | None =>
              let* parameters := allocate in
              ret (build arch network parameters)
          end
      end
  end.

(** Why a configuration error names [key]. *)
Definition offending (network : json) (key reason : string) : Prop :=
  (find_architecture network = None ∧ key = "otype") ∨
  (∃ arch, find_architecture network = Some arch ∧
     ((key ∈ required arch ∧ json_get key network = None) ∨
      validate arch network = Some (key, reason))).

Definition unrecognized_architecture (network : json) : Prop :=
  find_architecture network = None.

Definition missing_hyperparameter (network : json) : Prop :=
  ∃ arch key, find_architecture network = Some arch ∧
    key ∈ required arch ∧ json_get key network = None.

Definition invalid_combination (network : json) : Prop :=
  ∃ arch, find_architecture network = Some arch ∧
    is_Some (validate arch network).

End Factory.

(** ** Consistency of the workspace pool *)

(** The scratch attributed to a stream is live and listed once, no
    allocation is attributed to two streams, and the allocator has not yet
    handed out its next handle.  Every operation below keeps this. *)
Definition workspaces_wf {T} (d : Device T) : Prop :=
  (∀ s l, workspaces d !! s = Some l →
     NoDup l ∧ ∀ a, a ∈ l → a ∈ live d) ∧
  (∀ s1 s2 l1 l2 a, s1 ≠ s2 →
     workspaces d !! s1 = Some l1 → workspaces d !! s2 = Some l2 →
     a ∈ l1 → a ∉ l2) ∧
  (∀ a, a ∈ live d → a < next_alloc d).

(** The device before anything ran on it. *)
Definition fresh_device {T} (mem : nat → T) : Device T :=
  {| memory := mem; workspaces := ∅; live := ∅; next_alloc := 0 |}.

(** ** A concrete instance *)

Module Sample.

(** A network over [Z] with two inputs and three outputs. *)
Definition affine : Network Z :=
  {| base := {| storage := 0; params := [2; 1]%Z; gradients := [0; 0]%Z |};
     input_width := 2;
     output_width := 3;
     evaluate := λ ps x i,
       (hd 0 ps * foldr Z.add 0 x + Z.of_nat i)%Z |}.

(** A network of width one that adds one to its input. *)
Definition successor : Network Z :=
  {| base := {| storage := 0; params := []; gradients := [] |};
     input_width := 1;
     output_width := 1;
     evaluate := λ _ x _, (1 + hd 0 x)%Z |}.

Definition zeros : Device Z := fresh_device (λ _, 0%Z).

(** A 2 x 2 input at address 0 and a 3 x 2 output behind it. *)
Definition input : GPUMatrix Z ColumnMajor := {| data := 0; m := 2; n := 2 |}.
Definition output : GPUMatrix Z ColumnMajor := {| data := 4; m := 3; n := 2 |}.

(** A 1 x 1 view, to be passed both as input and as output. *)
Definition cell : GPUMatrix Z ColumnMajor := {| data := 0; m := 1; n := 1 |}.

(** A device on which stream 7 holds two scratch allocations. *)
Definition busy : Device Z :=
  {| memory := λ _, 0%Z;
     workspaces := {[ 7 := [1; 0] ]};
     live := {[ 0; 1; 2 ]};
     next_alloc := 3 |}.

Definition as_number (doc : json) (key : string) : nat :=
  match json_get key doc with
  | Some (Jnumber z) => Z.to_nat z
  | _ => 0
  end.

(** A registry with one architecture, which needs its widths and rejects a
    network without outputs. *)
Definition registry : list (string * Architecture Z) :=
  [("FullyFusedMLP",
    {| required := ["n_input_dims"; "n_output_dims"; "n_neurons";
                    "n_hidden_layers"];
       validate := λ doc,
         if decide (as_number doc "n_output_dims" = 0)
         then Some ("n_output_dims", "must be positive")
         else None;
       build := λ doc parameters,
         {| base := {| storage := parameters; params := [];
                       gradients := [] |};
            input_width := as_number doc "n_input_dims";
            output_width := as_number doc "n_output_dims";
            evaluate := λ _ _ _, 0%Z |} |})].

Definition mlp_config : json :=
  Jobject [("otype", Jstring "FullyFusedMLP"); ("n_input_dims", Jnumber 3);
           ("n_output_dims", Jnumber 1); ("n_neurons", Jnumber 64);
           ("n_hidden_layers", Jnumber 2)].

Definition unknown_config : json :=
  Jobject [("otype", Jstring "DoesNotExist")].

Definition incomplete_config : json :=
  Jobject [("otype", Jstring "FullyFusedMLP"); ("n_input_dims", Jnumber 3)].

End Sample.

(** ** The header as a whole *)

(** Every function network.h declares, for a given element type. *)
Definition declared_functions (T : Header.cpp_type)
  : list Header.function_decl :=
  [Header.cutlass_free_workspace; Header.Network_destructor;
   Header.inference_mixed_precision T; Header.create_network T].

(** The types a declaration mentions: its return type and the types of its
    parameters. *)
Definition signature_types (f : Header.function_decl) : list Header.cpp_type :=
  Header.f_return f :: (Header.p_type <$> Header.f_params f).

(** The class a function hands out a pointer to; in this header only
    [Network<T>*] occurs. *)
Definition returned_class (f : Header.function_decl)
  : option Header.class_decl :=
  match Header.f_return f with
  | Header.Ptr (Header.NetworkT T) => Some (Header.Network T)
  | _ => None
  end.

(** The method of a class with a given name. *)
Definition find_method (name : string) (c : Header.class_decl)
  : option Header.function_decl :=
  find (λ f, bool_decide (Header.f_name f = name)) (Header.c_methods c).

(** * Properties *)

(** ** The declarations *)

Section HeaderFacts.

Import Header.

Variable T : cpp_type.

Lemma bind_call_inference_inv (args : list argument) b :
  bind_call (f_params (inference_mixed_precision T)) args = Some b →
  ∃ s i o rest, args = s :: i :: o :: rest ∧
    a_type i = GPUMatrixT T ColumnMajor ∧
    a_type o = GPUMatrixT T ColumnMajor ∧ a_const o = false.
Proof.
  destruct args as [|s [|i [|o rest]]]; simpl; try discriminate.
  - destruct (bool_decide _); discriminate.
  - destruct (bool_decide _); [|discriminate].
    destruct (bool_decide _); discriminate.
  - destruct (bool_decide (a_type s = _)); [|discriminate].
    case_bool_decide as Hi; [|discriminate].
    case_bool_decide as Ho; [|discriminate].
    destruct (a_const o) eqn:Hc; [discriminate|].
    intros _. by exists s, i, o, rest.
Qed.

(** C2.  For every element type [T], the one base class of [Network<T>] is
    the differentiable capability instantiated with [T] both as the type of
    the externally visible parameters and gradients and as the compute type:
    the interface has no second, wider storage type. *)
Theorem Network_params_and_compute_type_are_T :
  ∃ b, c_bases (Network T) = [b] ∧
    params_type b = Some T ∧ compute_type b = Some T ∧
    params_type b = compute_type b.
Proof. exists (DifferentiableObjectT T T). by repeat split. Qed.

(** C7.  A call that omits the layout binds [output_layout] to ColumnMajor;
    a call may pass any layout, RowMajor included, and it is what gets bound;
    and whatever the call, it is well-formed only with an input of static
    type [GPUMatrix<T, ColumnMajor>], so a RowMajor input is rejected. *)
Theorem output_layout_defaults_to_ColumnMajor :
  let ps := f_params (inference_mixed_precision T) in
  (∀ c, ∃ b,
      bind_call ps [stream_arg; matrix_arg T ColumnMajor c;
                    matrix_arg T ColumnMajor false] = Some b ∧
      a_layout <$> bound "output_layout" b = Some (Some ColumnMajor)) ∧
  (∀ c l, ∃ b,
      bind_call ps [stream_arg; matrix_arg T ColumnMajor c;
                    matrix_arg T ColumnMajor false; layout_arg l] = Some b ∧
      a_layout <$> bound "output_layout" b = Some (Some l)) ∧
  (∀ args b, bind_call ps args = Some b →
      ∃ i, args !! 1 = Some i ∧ a_type i = GPUMatrixT T ColumnMajor) ∧
  (∀ c o rest,
      bind_call ps (stream_arg :: matrix_arg T RowMajor c :: o :: rest) = None).
Proof.
  intros ps. repeat split.
  - intros c. eexists. split.
    + subst ps. simpl. rewrite !bool_decide_eq_true_2 by done. reflexivity.
    + reflexivity.
  - intros c l. eexists. split.
    + subst ps. simpl. rewrite !bool_decide_eq_true_2 by done. reflexivity.
    + reflexivity.
  - intros args b Hb.
    destruct (bind_call_inference_inv _ _ Hb) as (s & i & o & rest & -> & Hi & _).
    by exists i.
  - intros c o rest. subst ps. simpl.
    rewrite (bool_decide_eq_false_2 (GPUMatrixT T RowMajor = _)) by (by intros [=]).
    reflexivity.
Qed.

(** C8.  [Network<T>] declares no data member at all, so none of its members
    can hold a [WeightUsage] from one call to the next. *)
Theorem Network_stores_no_WeightUsage :
  c_fields (Network T) = [] ∧
  Forall (λ f, mentions WeightUsageT f.2 = false) (c_fields (Network T)).
Proof. split; [reflexivity | constructor]. Qed.

(** C9.  For every element type [T] the [output] parameter is declared as
    [GPUMatrix<T, ColumnMajor>&]: whichever layout is requested (RowMajor
    included), a well-formed call passes an output of static layout
    ColumnMajor and the request travels in the value of [output_layout]
    alone; an output view tagged RowMajor is ill-formed. *)
Theorem output_type_is_ColumnMajor_for_any_request :
  let ps := f_params (inference_mixed_precision T) in
  p_type <$> ps !! 2 = Some (LRef (GPUMatrixT T ColumnMajor)) ∧
  p_type <$> ps !! 3 = Some MatrixLayoutT ∧
  (∀ c l, ∃ b o r,
      bind_call ps [stream_arg; matrix_arg T ColumnMajor c;
                    matrix_arg T ColumnMajor false; layout_arg l] = Some b ∧
      bound "output" b = Some o ∧ a_type o = GPUMatrixT T ColumnMajor ∧
      bound "output_layout" b = Some r ∧ a_layout r = Some l) ∧
  (∀ args b, bind_call ps args = Some b →
      ∃ o, args !! 2 = Some o ∧ a_type o = GPUMatrixT T ColumnMajor) ∧
  (∀ c c' l,
      bind_call ps [stream_arg; matrix_arg T ColumnMajor c;
                    matrix_arg T RowMajor c'; layout_arg l] = None).
Proof.
  intros ps. repeat split.
  - intros c l. eexists _, _, _. subst ps. simpl.
    rewrite !bool_decide_eq_true_2 by done. simpl. by repeat split.
  - intros args b Hb.
    destruct (bind_call_inference_inv _ _ Hb) as (s & i & o & rest & -> & _ & Ho & _).
    by exists o.
  - intros c c' l. subst ps. simpl.
    rewrite (bool_decide_eq_true_2 (GPUMatrixT T ColumnMajor = _)) by done.
    rewrite (bool_decide_eq_false_2 (GPUMatrixT T RowMajor = _)) by (by intros [=]).
    reflexivity.
Qed.

End HeaderFacts.

(** A value of the enumeration is determined by its underlying value. *)
Lemma WeightUsage_eq (u v : WeightUsage) :
  WeightUsage_underlying u = WeightUsage_underlying v → u = v.
Proof.
  destruct u as [x Hx], v as [y Hy]. simpl. intros ->.
  f_equal. apply proof_irrel.
Qed.

Lemma static_cast_WeightUsage_underlying (z : Z) (u : WeightUsage) :
  static_cast_WeightUsage z = Some u → WeightUsage_underlying u = z.
Proof.
  unfold static_cast_WeightUsage. destruct (decide _); [|discriminate].
  by intros [= <-].
Qed.

Lemma static_cast_WeightUsage_int (z : Z) :
  (int_min ≤ z ≤ int_max)%Z → is_Some (static_cast_WeightUsage z).
Proof.
  intros Hz. unfold static_cast_WeightUsage.
  destruct (decide _) as [H|H]; [by eexists|]. exfalso. apply H.
  unfold is_int. apply andb_True. split; apply Is_true_true; lia.
Qed.

(** C6, as amended.  The declaration has exactly the three enumerators
    Inference, Forward and Backward, with the pairwise distinct values 0, 1
    and 2 the language gives them; a value of the type is one of the three
    exactly when its underlying value is 0, 1 or 2, and every other [int]
    converts to a value of the type that is none of them. *)
Theorem WeightUsage_enumerators_are_three :
  (enumerator_values 0 WeightUsage_declaration).*1
    = ["Inference"; "Forward"; "Backward"] ∧
  WeightUsage_underlying <$> WeightUsage_enumerators
    = (enumerator_values 0 WeightUsage_declaration).*2 ∧
  length WeightUsage_enumerators = 3 ∧
  NoDup WeightUsage_enumerators ∧
  (∀ u : WeightUsage,
     u ∈ WeightUsage_enumerators ↔ u = Inference ∨ u = Forward ∨ u = Backward) ∧
  (∀ u : WeightUsage,
     u ∈ WeightUsage_enumerators ↔ (0 ≤ WeightUsage_underlying u ≤ 2)%Z) ∧
  (∀ z : Z, (int_min ≤ z ≤ int_max)%Z → ¬ (0 ≤ z ≤ 2)%Z →
     ∃ u, static_cast_WeightUsage z = Some u ∧ u ∉ WeightUsage_enumerators).
Proof.
  assert (∀ u : WeightUsage,
            u ∈ WeightUsage_enumerators ↔
            u = Inference ∨ u = Forward ∨ u = Backward) as Hmem.
  { intros u. unfold WeightUsage_enumerators.
    rewrite !elem_of_cons, elem_of_nil. tauto. }
  assert (∀ u : WeightUsage,
            u ∈ WeightUsage_enumerators ↔
            (0 ≤ WeightUsage_underlying u ≤ 2)%Z) as Hval.
  { intros u. rewrite Hmem. split.
    - intros [-> | [-> | ->]]; simpl; lia.
    - intros Hu.
      assert (WeightUsage_underlying u = 0 ∨ WeightUsage_underlying u = 1 ∨
              WeightUsage_underlying u = 2)%Z as [H|[H|H]] by lia.
      + left. by apply WeightUsage_eq.
      + right; left. by apply WeightUsage_eq.
      + right; right. by apply WeightUsage_eq. }
  split; [reflexivity|]. split; [reflexivity|]. split; [reflexivity|].
  split; [|split; [exact Hmem|split; [exact Hval|]]].
  - apply (NoDup_fmap_1 WeightUsage_underlying).
    apply (bool_decide_unpack _). vm_compute. reflexivity.
  - intros z Hz Hout. destruct (static_cast_WeightUsage_int z Hz) as [u Hu].
    exists u. split; [done|]. rewrite Hval.
    by rewrite (static_cast_WeightUsage_underlying z u Hu).
Qed.

(** C6 does not hold as stated: [static_cast<WeightUsage>(3)] is a value of
    the type and is none of the three enumerators. *)
Lemma WeightUsage_has_other_values :
  ¬ (∀ u : WeightUsage, u = Inference ∨ u = Forward ∨ u = Backward).
Proof.
  intros H. destruct (H (Build_WeightUsage 3 I)) as [Hu|[Hu|Hu]];
    discriminate Hu.
Qed.

(** ** The workspace pool *)

Section WorkspaceFacts.

Context {T : Type}.
Implicit Types (d : Device T).

Lemma for_each_deallocate (l : list nat) d :
  NoDup l → (∀ a, a ∈ l → a ∈ live d) →
  for_each deallocate l d =
    (Ok tt, {| memory := memory d; workspaces := workspaces d;
               live := live d ∖ list_to_set l;
               next_alloc := next_alloc d |}).
Proof.
  revert d. induction l as [|a l IH]; intros d Hnd Hlive.
  - simpl. unfold ret. destruct d; simpl. f_equal. f_equal. set_solver.
  - apply list.NoDup_cons in Hnd as [Ha Hnd].
    simpl. unfold bind at 1. unfold deallocate at 1.
    rewrite decide_True by (apply Hlive; left).
    rewrite IH; simpl; [|done|].
    + do 2 f_equal. set_solver.
    + intros b Hb. apply elem_of_difference. split; [apply Hlive; by right|].
      set_solver.
Qed.

Lemma cutlass_free_workspace_unattributed (stream : cudaStream_t) d :
  workspaces d !! stream = None →
  cutlass_free_workspace stream d = (Ok tt, d).
Proof.
  intros H. unfold cutlass_free_workspace, bind, get. by rewrite H.
Qed.

Lemma cutlass_free_workspace_attributed (stream : cudaStream_t) d scratch :
  workspaces_wf d → workspaces d !! stream = Some scratch →
  cutlass_free_workspace stream d =
    (Ok tt, {| memory := memory d;
               workspaces := delete stream (workspaces d);
               live := live d ∖ list_to_set scratch;
               next_alloc := next_alloc d |}).
Proof.
  intros (Hl & _ & _) H. destruct (Hl _ _ H) as [Hnd Hlive].
  unfold cutlass_free_workspace, bind at 1, get. rewrite H.
  unfold bind. by rewrite for_each_deallocate.
Qed.

Lemma cutlass_free_workspace_wf (stream : cudaStream_t) d r d' :
  workspaces_wf d → cutlass_free_workspace stream d = (r, d') →
  workspaces_wf d'.
Proof.
  intros Hwf. destruct (workspaces d !! stream) as [scratch|] eqn:H.
  - rewrite (cutlass_free_workspace_attributed _ _ _ Hwf H).
    intros [= _ <-]. destruct Hwf as (Hl & Hdisj & Hnext).
    split; [|split]; simpl.
    + intros s l Hs. apply lookup_delete_Some in Hs as [Hne Hs].
      destruct (Hl _ _ Hs) as [Hnd Hlive]. split; [done|].
      intros a Ha. apply elem_of_difference. split; [by apply Hlive|].
      rewrite elem_of_list_to_set. by apply (Hdisj s stream l scratch).
    + intros s1 s2 l1 l2 a Hne H1 H2.
      apply lookup_delete_Some in H1 as [_ H1].
      apply lookup_delete_Some in H2 as [_ H2]. by eapply Hdisj.
    + intros a Ha. apply Hnext. set_solver.
  - rewrite (cutlass_free_workspace_unattributed _ _ H). by intros [= _ <-].
Qed.

(** C5.  On a consistent device, releasing the workspace of a stream
    succeeds and leaves no scratch attributed to the stream; releasing it
    again succeeds too and changes nothing (so nothing is freed a second
    time, which would have failed).  Buffers and the scratch of other
    streams are not touched. *)
Theorem cutlass_free_workspace_idempotent (stream : cudaStream_t) d :
  workspaces_wf d →
  ∃ d1,
    cutlass_free_workspace stream d = (Ok tt, d1) ∧
    workspaces d1 !! stream = None ∧
    cutlass_free_workspace stream d1 = (Ok tt, d1) ∧
    memory d1 = memory d ∧
    (∀ s, s ≠ stream → workspaces d1 !! s = workspaces d !! s).
Proof.
  intros Hwf. destruct (workspaces d !! stream) as [scratch|] eqn:H.
  - eexists. split; [by apply cutlass_free_workspace_attributed|].
    assert (∀ w : gmap nat (list nat), delete stream w !! stream = None) as Hdel
      by (intros w; apply lookup_delete_eq).
    split; [apply Hdel|]. split; [|split].
    + apply cutlass_free_workspace_unattributed. apply Hdel.
    + reflexivity.
    + intros s Hs. simpl. by apply lookup_delete_ne.
  - exists d. split; [by apply cutlass_free_workspace_unattributed|].
    split; [done|]. split; [by apply cutlass_free_workspace_unattributed|].
    done.
Qed.

End WorkspaceFacts.


(** ** Mixed-precision inference *)

Lemma element_index_lt (layout : MatrixLayout) (rows cols i j : nat) :
  i < rows → j < cols → element_index layout rows cols i j < rows * cols.
Proof. destruct layout; simpl; nia. Qed.

Lemma element_index_inj (layout : MatrixLayout) (rows cols i j i' j' : nat) :
  i < rows → j < cols → i' < rows → j' < cols →
  element_index layout rows cols i j = element_index layout rows cols i' j' →
  i = i' ∧ j = j'.
Proof.
  intros Hi Hj Hi' Hj'. destruct layout; simpl; intros Heq.
  - assert (i = i') as ->; [|lia].
    destruct (Nat.lt_trichotomy i i') as [Hlt|[?|Hlt]]; [|done|].
    + pose proof (Nat.mul_le_mono_r (S i) i' cols Hlt). lia.
    + pose proof (Nat.mul_le_mono_r (S i') i cols Hlt). lia.
  - assert (j = j') as ->; [|lia].
    destruct (Nat.lt_trichotomy j j') as [Hlt|[?|Hlt]]; [|done|].
    + pose proof (Nat.mul_le_mono_r (S j) j' rows Hlt). lia.
    + pose proof (Nat.mul_le_mono_r (S j') j rows Hlt). lia.
Qed.

Lemma element_index_surj (layout : MatrixLayout) (rows cols k : nat) :
  k < rows * cols →
  ∃ i j, i < rows ∧ j < cols ∧ element_index layout rows cols i j = k.
Proof.
  intros Hk. destruct layout; simpl.
  - assert (cols ≠ 0) as Hc by nia.
    exists (k / cols), (k mod cols).
    pose proof (Nat.div_mod_eq k cols). pose proof (Nat.mod_upper_bound k cols Hc).
    repeat split; [|done|nia].
    apply Nat.Div0.div_lt_upper_bound. nia.
  - assert (rows ≠ 0) as Hr by nia.
    exists (k mod rows), (k / rows).
    pose proof (Nat.div_mod_eq k rows). pose proof (Nat.mod_upper_bound k rows Hr).
    repeat split; [done| |nia].
    apply Nat.Div0.div_lt_upper_bound. nia.
Qed.

Section InferenceFacts.

Context {T : Type}.
Implicit Types (d : Device T) (net : Network T) (mem : nat → T).
Implicit Types (input output : GPUMatrix T ColumnMajor).

Lemma foldl_store_other mem (stores : list (nat * T)) (a : nat) :
  a ∉ stores.*1 → foldl store mem stores a = mem a.
Proof.
  revert mem. induction stores as [|[b v] stores IH]; intros mem Ha; [done|].
  simpl in *. apply not_elem_of_cons in Ha as [Hne Ha].
  rewrite IH by done. unfold store. simpl. by rewrite fn_lookup_insert_ne.
Qed.

Lemma foldl_store_last mem (stores : list (nat * T)) (a : nat) (v : T) :
  (a, v) ∈ stores → (∀ v', (a, v') ∈ stores → v' = v) →
  foldl store mem stores a = v.
Proof.
  induction stores as [|[b w] stores IH] using rev_ind; intros Hin Hfun.
  - by apply elem_of_nil in Hin.
  - rewrite foldl_app. simpl. unfold store at 1. simpl.
    destruct (decide (b = a)) as [->|Hne].
    + rewrite fn_lookup_insert. apply Hfun. set_solver.
    + rewrite fn_lookup_insert_ne by done. apply IH.
      * apply elem_of_app in Hin as [Hin|Hin]; [done|].
        apply list_elem_of_singleton in Hin. congruence.
      * intros v' Hv'. apply Hfun. set_solver.
Qed.

Lemma elem_of_inference_stores net input output layout mem (a : nat) (v : T) :
  (a, v) ∈ inference_stores net input output layout mem ↔
  ∃ i j, i < m output ∧ j < n input ∧
    a = data output + element_index layout (m output) (n output) i j ∧
    v = evaluate net (params (base net)) (read_column mem input j) i.
Proof.
  unfold inference_stores. rewrite list_elem_of_bind. split.
  - intros (j & Hin & Hj). apply list_elem_of_bind in Hin as (i & Hin & Hi).
    apply list_elem_of_singleton in Hin. injection Hin as -> ->.
    apply elem_of_seq in Hi, Hj. exists i, j. repeat split; lia.
  - intros (i & j & Hi & Hj & -> & ->). exists j. split.
    + apply list_elem_of_bind. exists i. split; [by apply list_elem_of_singleton|].
      apply elem_of_seq. lia.
    + apply elem_of_seq. lia.
Qed.

Lemma inference_mixed_precision_run net (stream : cudaStream_t) input output
    layout d :
  dimensions_match net input output →
  inference_mixed_precision net stream input output layout d =
    (Ok net,
     {| memory := foldl store (memory d)
                    (inference_stores net input output layout (memory d));
        workspaces := <[stream := next_alloc d
                                   :: default [] (workspaces d !! stream)]>
                        (workspaces d);
        live := {[next_alloc d]} ∪ live d;
        next_alloc := S (next_alloc d) |}).
Proof.
  intros Hdim. unfold inference_mixed_precision.
  rewrite decide_True by done. reflexivity.
Qed.

Lemma inference_mixed_precision_mismatch net (stream : cudaStream_t) input
    output layout d :
  ¬ dimensions_match net input output →
  inference_mixed_precision net stream input output layout d =
    (Failed DimensionMismatchError, d).
Proof.
  intros Hdim. unfold inference_mixed_precision.
  rewrite decide_False by done. reflexivity.
Qed.

(** Memory outside the output buffer is as it was, whatever the result. *)
Lemma inference_mixed_precision_memory net (stream : cudaStream_t) input
    output layout d r d' (a : nat) :
  inference_mixed_precision net stream input output layout d = (r, d') →
  ¬ in_buffer output a → memory d' a = memory d a.
Proof.
  destruct (decide (dimensions_match net input output)) as [Hdim|Hdim].
  - rewrite inference_mixed_precision_run by done. intros [= _ <-] Ha. simpl.
    apply foldl_store_other. intros Hin.
    apply list_elem_of_fmap in Hin as ([a' v] & -> & Hin).
    apply elem_of_inference_stores in Hin as (i & j & Hi & Hj & Ha' & _).
    destruct Hdim as (_ & _ & Hn). rewrite Hn in Hj.
    pose proof (element_index_lt layout _ _ _ _ Hi Hj).
    apply Ha. unfold in_buffer. simpl in *. lia.
  - rewrite inference_mixed_precision_mismatch by done. by intros [= _ <-].
Qed.

(** C1.  When the declared dimensions match, the call succeeds and, for
    either requested layout, every address of the output buffer is the
    target of one of its stores; afterwards element (i, j) of the output, at
    the place the requested layout gives it, holds row i of the network's
    result for column j of the input. *)
Theorem inference_mixed_precision_overwrites_output net
    (stream : cudaStream_t) input output (layout : MatrixLayout) d :
  dimensions_match net input output →
  ∃ d',
    inference_mixed_precision net stream input output layout d = (Ok net, d') ∧
    (∀ a, in_buffer output a →
       a ∈ (inference_stores net input output layout (memory d)).*1) ∧
    (∀ i j, i < m output → j < n output →
       memory d' (data output + element_index layout (m output) (n output) i j)
       = evaluate net (params (base net))
           (read_column (memory d) input j) i).
Proof.
  intros Hdim. eexists. split; [by apply inference_mixed_precision_run|].
  destruct Hdim as (_ & _ & Hn). split.
  - intros a [Hlo Hhi].
    destruct (element_index_surj layout (m output) (n output) (a - data output))
      as (i & j & Hi & Hj & Hk); [lia|].
    apply list_elem_of_fmap. eexists (a, _). split; [done|].
    apply elem_of_inference_stores. exists i, j.
    repeat split; [done|lia|lia].
  - intros i j Hi Hj. simpl. apply foldl_store_last.
    + apply elem_of_inference_stores. exists i, j. repeat split; [done|lia].
    + intros v' Hv'.
      apply elem_of_inference_stores in Hv' as (i' & j' & Hi' & Hj' & Ha & ->).
      rewrite Hn in Hj'.
      destruct (element_index_inj layout (m output) (n output) i j i' j')
        as [-> ->]; [done..|lia|done].
Qed.

(** C4.  A call leaves the instance as it was (parameters, gradients and
    their storage), writes no buffer memory outside the output buffer, frees
    nothing, and changes the scratch attributed to no other stream; a call
    that fails on its dimensions changes nothing at all. *)
Theorem inference_mixed_precision_frame net (stream : cudaStream_t) input
    output (layout : MatrixLayout) d r d' :
  inference_mixed_precision net stream input output layout d = (r, d') →
  (∀ net', r = Ok net' →
     params (base net') = params (base net) ∧
     gradients (base net') = gradients (base net) ∧
     storage (base net') = storage (base net)) ∧
  (∀ e, r = Failed e → d' = d) ∧
  (∀ a, ¬ in_buffer output a → memory d' a = memory d a) ∧
  live d ⊆ live d' ∧
  (∀ s, s ≠ stream → workspaces d' !! s = workspaces d !! s).
Proof.
  intros Hrun. split; [|split; [|split]].
  - intros net' ->. revert Hrun. unfold inference_mixed_precision.
    case_decide; [|discriminate]. by intros [= <- _].
  - intros e ->. revert Hrun. unfold inference_mixed_precision.
    case_decide; [discriminate|]. by intros [= _ <-].
  - intros a Ha. by eapply inference_mixed_precision_memory.
  - revert Hrun.
    destruct (decide (dimensions_match net input output)) as [Hdim|Hdim].
    + rewrite inference_mixed_precision_run by done. intros [= _ <-]. simpl.
      split; [set_solver|]. intros s Hs. by rewrite lookup_insert_ne.
    + rewrite inference_mixed_precision_mismatch by done. by intros [= _ <-].
Qed.

(** C10, as amended.  When no address of the input buffer lies in the
    output buffer, a call leaves the contents of the input buffer as they
    were. *)
Theorem inference_mixed_precision_keeps_disjoint_input net
    (stream : cudaStream_t) input output (layout : MatrixLayout) d r d' :
  (∀ a, in_buffer input a → ¬ in_buffer output a) →
  inference_mixed_precision net stream input output layout d = (r, d') →
  ∀ a, in_buffer input a → memory d' a = memory d a.
Proof.
  intros Hdisj Hrun a Ha. eapply inference_mixed_precision_memory; eauto.
Qed.

(** The pool stays consistent across a call. *)
Lemma inference_mixed_precision_wf net (stream : cudaStream_t) input output
    layout d r d' :
  workspaces_wf d →
  inference_mixed_precision net stream input output layout d = (r, d') →
  workspaces_wf d'.
Proof.
  intros Hwf.
  destruct (decide (dimensions_match net input output)) as [Hdim|Hdim].
  2: { rewrite inference_mixed_precision_mismatch by done. by intros [= _ <-]. }
  rewrite inference_mixed_precision_run by done. intros [= _ <-].
  destruct Hwf as (Hl & Hdisj & Hnext).
  assert (∀ s l a, workspaces d !! s = Some l → a ∈ l → a < next_alloc d)
    as Hold by (intros s l a Hs Ha; apply Hnext; by apply (Hl s l)).
  assert (∀ a, a ∈ default [] (workspaces d !! stream) →
            ∃ l, workspaces d !! stream = Some l ∧ a ∈ l) as Hdef.
  { intros a. destruct (workspaces d !! stream) as [l|]; simpl; [by eauto|].
    by intros ?%elem_of_nil. }
  split; [|split]; simpl.
  - intros s l Hs. apply lookup_insert_Some in Hs as [[<- <-]|[Hne Hs]].
    + split.
      * apply list.NoDup_cons. split.
        -- intros (l & Hs & Ha)%Hdef. pose proof (Hold _ _ _ Hs Ha). lia.
        -- destruct (workspaces d !! stream) as [l|] eqn:Hs; simpl;
             [by apply (Hl stream)|constructor].
      * intros a [->|(l & Hs & Ha)%Hdef]%elem_of_cons; [set_solver|].
        apply elem_of_union_r. by apply (Hl stream l).
    + destruct (Hl _ _ Hs) as [Hnd Hlive]. split; [done|].
      intros a Ha. apply elem_of_union_r. by apply Hlive.
  - intros s1 s2 l1 l2 a Hne H1 H2 Ha1 Ha2.
    apply lookup_insert_Some in H1 as [[<- <-]|[Hne1 H1]];
      apply lookup_insert_Some in H2 as [[<- <-]|[Hne2 H2]]; try done.
    + apply elem_of_cons in Ha1 as [->|(l & Hs & Ha)%Hdef].
      * pose proof (Hold _ _ _ H2 Ha2). lia.
      * exact (Hdisj _ _ _ _ _ Hne Hs H2 Ha Ha2).
    + apply elem_of_cons in Ha2 as [->|(l & Hs & Ha)%Hdef].
      * pose proof (Hold _ _ _ H1 Ha1). lia.
      * exact (Hdisj _ _ _ _ _ Hne H1 Hs Ha1 Ha).
    + exact (Hdisj _ _ _ _ _ Hne H1 H2 Ha1 Ha2).
  - intros a [->%elem_of_singleton|Ha%Hnext]%elem_of_union; lia.
Qed.

Lemma fresh_device_wf mem : workspaces_wf (fresh_device mem).
Proof.
  split; [|split]; simpl.
  - intros s l Hs. by rewrite lookup_empty in Hs.
  - intros s1 s2 l1 l2 a _ Hs. by rewrite lookup_empty in Hs.
  - intros a Ha. set_solver.
Qed.

End InferenceFacts.

(** ** The factory *)

Section FactoryFacts.

Context {T : Type}.
Variable registry : list (string * Architecture T).
Implicit Types (d : Device T) (network : json).

Lemma find_json_lacks network (keys : list string) :
  match find (json_lacks network) keys with
  | Some key => key ∈ keys ∧ json_get key network = None
  | None => ∀ key, key ∈ keys → is_Some (json_get key network)
  end.
Proof.
  induction keys as [|k keys IH]; simpl.
  - by intros key ?%elem_of_nil.
  - unfold json_lacks at 1. destruct (json_get k network) eqn:Hk.
    + destruct (find _ keys).
      * destruct IH. split; [by right|done].
      * intros key [->|Hin]%elem_of_cons; [by rewrite Hk|by apply IH].
    + split; [by left|done].
Qed.

(** A configuration that passes every check is built, with one allocation
    for its parameters. *)
Lemma create_network_accepts network arch d :
  find_architecture registry network = Some arch →
  (∀ key, key ∈ required arch → is_Some (json_get key network)) →
  validate arch network = None →
  create_network registry network d =
    (Ok (build arch network (next_alloc d)),
     {| memory := memory d; workspaces := workspaces d;
        live := {[next_alloc d]} ∪ live d;
        next_alloc := S (next_alloc d) |}).
Proof.
  intros Harch Hreq Hvalid. unfold create_network. rewrite Harch.
  pose proof (find_json_lacks network (required arch)) as Hfind.
  destruct (find _ _) as [key|].
  - destruct Hfind as [Hin Hnone]. destruct (Hreq _ Hin) as [v Hv]. congruence.
  - by rewrite Hvalid.
Qed.

(** C3.  A configuration whose architecture tag is not recognised, which
    lacks a required hyperparameter, or whose hyperparameters are an invalid
    combination, makes the factory fail with a [ConfigurationError] that
    names an offending key; the device is exactly as before the call (nothing
    was allocated) and no instance is returned. *)
Theorem create_network_rejects_before_allocating network d :
  unrecognized_architecture registry network ∨
  missing_hyperparameter registry network ∨
  invalid_combination registry network →
  ∃ key reason,
    create_network registry network d =
      (Failed (ConfigurationError key reason), d) ∧
    offending registry network key reason.
Proof.
  unfold create_network, offending.
  intros [Hnone|[(arch & k & Harch & Hk & Hlacks)|(arch & Harch & Hbad)]].
  - red in Hnone. rewrite Hnone. eexists _, _. split; [done|]. by left.
  - rewrite Harch. pose proof (find_json_lacks network (required arch)) as Hfind.
    destruct (find _ _) as [key|].
    + eexists _, _. split; [done|]. right. exists arch. split; [done|]. by left.
    + destruct (Hfind _ Hk) as [v Hv]. congruence.
  - rewrite Harch. pose proof (find_json_lacks network (required arch)) as Hfind.
    destruct (find _ _) as [key|].
    + eexists _, _. split; [done|]. right. exists arch. split; [done|]. by left.
    + destruct Hbad as [[key reason] Hbad]. rewrite Hbad.
      eexists _, _. split; [done|]. right. exists arch. split; [done|]. by right.
Qed.

(** The factory fails in no other case, and never with another error. *)
Lemma create_network_fails_only_on_configuration network d e d' :
  create_network registry network d = (Failed e, d') →
  d' = d ∧ ∃ key reason, e = ConfigurationError key reason ∧
    offending registry network key reason.
Proof.
  unfold create_network, offending.
  destruct (find_architecture registry network) as [arch|] eqn:Harch.
  - pose proof (find_json_lacks network (required arch)) as Hfind.
    destruct (find _ _) as [key|].
    + intros [= <- <-]. split; [done|]. eexists _, _. split; [done|].
      right. exists arch. split; [done|]. by left.
    + destruct (validate arch network) as [[key reason]|] eqn:Hbad.
      * intros [= <- <-]. split; [done|]. eexists _, _. split; [done|].
        right. exists arch. split; [done|]. by right.
      * discriminate.
  - intros [= <- <-]. split; [done|]. eexists _, _. split; [done|]. by left.
Qed.

Lemma create_network_wf network d r d' :
  workspaces_wf d → create_network registry network d = (r, d') →
  workspaces_wf d'.
Proof.
  intros Hwf. destruct r as [net|e].
  2: { by intros [-> _]%create_network_fails_only_on_configuration. }
  unfold create_network.
  destruct (find_architecture registry network) as [arch|]; [|discriminate].
  destruct (find _ _); [discriminate|].
  destruct (validate arch network) as [[key reason]|]; [discriminate|].
  intros [= _ <-]. destruct Hwf as (Hl & Hdisj & Hnext).
  split; [|split]; simpl.
  - intros s l Hs. destruct (Hl _ _ Hs) as [Hnd Hlive]. split; [done|].
    intros a Ha. apply elem_of_union_r. by apply Hlive.
  - done.
  - intros a [->%elem_of_singleton|Ha%Hnext]%elem_of_union; lia.
Qed.

End FactoryFacts.

(** ** The operations on the concrete instance *)

Example sample_inference_row_major :
  ∃ d', inference_mixed_precision Sample.affine 7 Sample.input Sample.output
          RowMajor Sample.zeros = (Ok Sample.affine, d') ∧
        (λ a, memory d' a) <$> seq 0 11 = [0; 0; 0; 0; 0; 0; 1; 1; 2; 2; 0]%Z ∧
        workspaces d' !! 7 = Some [0].
Proof. eexists. split; [reflexivity|]. split; reflexivity. Qed.

Example sample_inference_mismatch :
  inference_mixed_precision Sample.affine 7 Sample.output Sample.input
    ColumnMajor Sample.zeros = (Failed DimensionMismatchError, Sample.zeros).
Proof. reflexivity. Qed.

Example sample_create_network_unknown :
  create_network Sample.registry Sample.unknown_config Sample.zeros =
    (Failed (ConfigurationError "otype" "unrecognized architecture"),
     Sample.zeros).
Proof. reflexivity. Qed.

Example sample_create_network_incomplete :
  create_network Sample.registry Sample.incomplete_config Sample.zeros =
    (Failed (ConfigurationError "n_output_dims"
               "missing required hyperparameter"),
     Sample.zeros).
Proof. reflexivity. Qed.

Example sample_create_network_mlp :
  ∃ net d', create_network Sample.registry Sample.mlp_config Sample.zeros =
              (Ok net, d') ∧
            input_width net = 3 ∧ output_width net = 1 ∧ live d' = {[0]}.
Proof.
  eexists _, _. split; [reflexivity|]. simpl. by repeat split.
Qed.

Lemma sample_busy_wf : workspaces_wf Sample.busy.
Proof.
  split; [|split]; simpl.
  - intros s l [<- <-]%lookup_singleton_Some. split.
    + apply (bool_decide_unpack _). reflexivity.
    + intros a Ha. set_solver.
  - intros s1 s2 l1 l2 a Hne [<- _]%lookup_singleton_Some
      [<- _]%lookup_singleton_Some. done.
  - intros a Ha. assert (a = 0 ∨ a = 1 ∨ a = 2) by set_solver. lia.
Qed.

Example sample_free_workspace :
  ∃ d1, cutlass_free_workspace 7 Sample.busy = (Ok tt, d1) ∧
        workspaces d1 = ∅ ∧ live d1 = {[2]}.
Proof.
  eexists. split.
  { apply cutlass_free_workspace_attributed;
      [apply sample_busy_wf | apply lookup_singleton_eq]. }
  simpl. split.
  - apply delete_singleton_eq.
  - set_solver.
Qed.

(** The statements above that carry a premise, at the concrete instance. *)

Lemma inference_mixed_precision_overwrites_output_on_sample :
  dimensions_match Sample.affine Sample.input Sample.output ∧
  ∃ d',
    inference_mixed_precision Sample.affine 7 Sample.input Sample.output
      RowMajor Sample.zeros = (Ok Sample.affine, d') ∧
    (∀ a, in_buffer Sample.output a →
       a ∈ (inference_stores Sample.affine Sample.input Sample.output
              RowMajor (memory Sample.zeros)).*1) ∧
    (∀ i j, i < m Sample.output → j < n Sample.output →
       memory d'
         (data Sample.output +
          element_index RowMajor (m Sample.output) (n Sample.output) i j)
       = evaluate Sample.affine (params (base Sample.affine))
           (read_column (memory Sample.zeros) Sample.input j) i).
Proof.
  assert (dimensions_match Sample.affine Sample.input Sample.output) as Hdim
    by (repeat split).
  split; [exact Hdim|].
  exact (inference_mixed_precision_overwrites_output Sample.affine 7
           Sample.input Sample.output RowMajor Sample.zeros Hdim).
Defined.

Lemma inference_mixed_precision_frame_on_sample :
  ∃ r d',
    inference_mixed_precision Sample.affine 7 Sample.input Sample.output
      RowMajor Sample.zeros = (r, d') ∧
    (∀ net', r = Ok net' →
       params (base net') = params (base Sample.affine) ∧
       gradients (base net') = gradients (base Sample.affine) ∧
       storage (base net') = storage (base Sample.affine)) ∧
    (∀ e, r = Failed e → d' = Sample.zeros) ∧
    (∀ a, ¬ in_buffer Sample.output a → memory d' a = memory Sample.zeros a) ∧
    live Sample.zeros ⊆ live d' ∧
    (∀ s, s ≠ 7 → workspaces d' !! s = workspaces Sample.zeros !! s).
Proof.
  eexists _, _. split; [reflexivity|].
  exact (inference_mixed_precision_frame Sample.affine 7 Sample.input
           Sample.output RowMajor Sample.zeros _ _ eq_refl).
Defined.

Lemma cutlass_free_workspace_idempotent_on_sample :
  workspaces_wf Sample.busy ∧
  ∃ d1,
    cutlass_free_workspace 7 Sample.busy = (Ok tt, d1) ∧
    workspaces d1 !! 7 = None ∧
    cutlass_free_workspace 7 d1 = (Ok tt, d1) ∧
    memory d1 = memory Sample.busy ∧
    (∀ s, s ≠ 7 → workspaces d1 !! s = workspaces Sample.busy !! s).
Proof.
  split; [exact sample_busy_wf|].
  exact (cutlass_free_workspace_idempotent 7 Sample.busy sample_busy_wf).
Defined.

Lemma create_network_rejects_before_allocating_on_sample :
  unrecognized_architecture Sample.registry Sample.unknown_config ∧
  ∃ key reason,
    create_network Sample.registry Sample.unknown_config Sample.zeros =
      (Failed (ConfigurationError key reason), Sample.zeros) ∧
    offending Sample.registry Sample.unknown_config key reason.
Proof.
  assert (unrecognized_architecture Sample.registry Sample.unknown_config)
    as Hunknown by reflexivity.
  split; [exact Hunknown|].
  exact (create_network_rejects_before_allocating Sample.registry
           Sample.unknown_config Sample.zeros (or_introl Hunknown)).
Defined.

Lemma sample_buffers_disjoint (a : nat) :
  in_buffer Sample.input a → ¬ in_buffer Sample.output a.
Proof. unfold in_buffer. simpl. lia. Qed.

Lemma inference_mixed_precision_keeps_disjoint_input_on_sample :
  ∃ r d',
    inference_mixed_precision Sample.affine 7 Sample.input Sample.output
      ColumnMajor Sample.zeros = (r, d') ∧
    ∀ a, in_buffer Sample.input a → memory d' a = memory Sample.zeros a.
Proof.
  eexists _, _. split; [reflexivity|].
  exact (inference_mixed_precision_keeps_disjoint_input Sample.affine 7
           Sample.input Sample.output ColumnMajor Sample.zeros _ _
           sample_buffers_disjoint eq_refl).
Defined.

(** C10 does not hold as stated: with the same 1 x 1 view passed as input
    and as output, the call replaces the input's 0 by 1. *)
Lemma inference_mixed_precision_overwrites_aliased_input :
  ¬ (∀ (net : Network Z) (stream : cudaStream_t)
       (input output : GPUMatrix Z ColumnMajor) (layout : MatrixLayout)
       (d : Device Z) r d' (a : nat),
       inference_mixed_precision net stream input output layout d = (r, d') →
       in_buffer input a → memory d' a = memory d a).
Proof.
  intros H.
  specialize (H Sample.successor 0 Sample.cell Sample.cell ColumnMajor
                Sample.zeros _ _ 0 eq_refl).
  assert (in_buffer Sample.cell 0) as Hin by (unfold in_buffer; simpl; lia).
  specialize (H Hin). discriminate H.
Qed.

(** ** Further facts about the declarations *)

Section MoreHeaderFacts.

Import Header.

Variable T : cpp_type.

(** The calls of the inference method that the binding rule accepts, in
    full. *)
Lemma bind_call_inference_iff
    (args : list argument) (b : list (string * argument)) :
  bind_call (f_params (inference_mixed_precision T)) args = Some b ↔
  ∃ s i o r,
    a_type s = Named "cudaStream_t" ∧
    a_type i = GPUMatrixT T ColumnMajor ∧
    a_type o = GPUMatrixT T ColumnMajor ∧ a_const o = false ∧
    (args = [s; i; o] ∧ r = of_default (DefaultLayout ColumnMajor) ∨
     args = [s; i; o; r] ∧ a_type r = MatrixLayoutT) ∧
    b = [("stream", s); ("input", i); ("output", o); ("output_layout", r)].
Proof.
  split.
  - destruct args as [|s [|i [|o [|r [|x rest]]]]]; simpl.
    + discriminate.
    + destruct (bool_decide _); discriminate.
    + destruct (bool_decide _); [|discriminate].
      destruct (bool_decide _); discriminate.
    + case_bool_decide as Hs; [|discriminate].
      case_bool_decide as Hi; [|discriminate].
      case_bool_decide as Ho; [|discriminate].
      destruct (a_const o) eqn:Hc; [discriminate|]. simpl.
      intros [= <-]. eexists s, i, o, _. repeat split; try done. by left.
    + case_bool_decide as Hs; [|discriminate].
      case_bool_decide as Hi; [|discriminate].
      case_bool_decide as Ho; [|discriminate].
      destruct (a_const o) eqn:Hc; [discriminate|]. simpl.
      case_bool_decide as Hr; [|discriminate]. simpl.
      intros [= <-]. exists s, i, o, r. repeat split; try done. by right.
    + case_bool_decide as Hs; [|discriminate].
      case_bool_decide as Hi; [|discriminate].
      case_bool_decide as Ho; [|discriminate].
      destruct (a_const o) eqn:Hc; [discriminate|]. simpl.
      case_bool_decide as Hr; discriminate.
  - intros (s & i & o & r & Hs & Hi & Ho & Hc & [[-> ->]|[-> Hr]] & ->);
      simpl; rewrite !bool_decide_eq_true_2 by done; rewrite Hc; reflexivity.
Qed.

(** X2.  The handle the factory returns for element type [T] is a
    [Network<T>]: its inference method takes an input and an output whose
    element types are both [T], and a call that passes a matrix of any other
    element type in either place is ill-formed. *)
Theorem create_network_handle_takes_matrices_of_T
    (U V : cpp_type) (c : bool) :
  ∃ cls meth,
    returned_class (create_network T) = Some cls ∧
    find_method "inference_mixed_precision" cls = Some meth ∧
    (is_Some (bind_call (f_params meth)
                [stream_arg; matrix_arg U ColumnMajor c;
                 matrix_arg V ColumnMajor false])
     ↔ U = T ∧ V = T).
Proof.
  exists (Network T), (inference_mixed_precision T).
  split; [reflexivity|]. split; [reflexivity|]. split.
  - intros [b Hb].
    apply bind_call_inference_iff in Hb
      as (s & i & o & r & _ & Hi & Ho & _ & [[Hargs _]|[Hargs _]] & _);
      [|discriminate Hargs].
    injection Hargs as <- <- <-. simpl in Hi, Ho.
    injection Hi as ->. injection Ho as ->. done.
  - intros [-> ->]. eexists.
    apply bind_call_inference_iff.
    exists stream_arg, (matrix_arg T ColumnMajor c),
      (matrix_arg T ColumnMajor false), (of_default (DefaultLayout ColumnMajor)).
    split_and!; try reflexivity. by left.
Qed.

(** X5.  Unless the element type itself involves it, no function the header
    declares takes or returns a [WeightUsage]: the enumeration is declared
    here and used by none of the header's signatures. *)
Theorem no_declared_function_mentions_WeightUsage :
  mentions WeightUsageT T = false →
  Forall (λ f, Forall (λ t, mentions WeightUsageT t = false)
                 (signature_types f))
    (declared_functions T).
Proof.
  intros HT. unfold declared_functions, signature_types.
  repeat first [apply Forall_nil_2 | apply Forall_cons_2];
    simpl; rewrite ?HT; reflexivity.
Qed.

End MoreHeaderFacts.

Lemma no_declared_function_mentions_WeightUsage_on_half :
  Header.mentions Header.WeightUsageT (Header.Named "__half") = false ∧
  Forall (λ f, Forall (λ t, Header.mentions Header.WeightUsageT t = false)
                 (signature_types f))
    (declared_functions (Header.Named "__half")).
Proof.
  split; [reflexivity|].
  exact (no_declared_function_mentions_WeightUsage (Header.Named "__half")
           eq_refl).
Defined.
